(** * Step 04 of 12StepsNavierStokes: the 1D Burgers' equation solver

    Shallow embedding of cells 5 and 6 of [steps/04_burgers_equation.ipynb].

    Floating-point arithmetic is abstracted: the development is generic in a
    carrier [F] and in the binary operations Python applies to it, so every
    generic theorem holds for IEEE doubles as well as for any other choice.
    Each arithmetic expression is written with the source's association
    order.  Python's [int]-to-[float] conversion keeps its binary64 overflow
    bound, and NumPy's allocations their possible failure.  At the end the
    model is instantiated with Rocq's primitive binary64 floats to run the
    notebook's own configuration.

    The notebook keeps two NumPy arrays, [u] (the working field) and [un]
    (the snapshot).  They are separate objects after [un = u.copy()], so the
    store is a record of two buffers.  Python indexing (negative indices wrap
    once; anything else out of range raises [IndexError]) is written out. *)

From stdpp Require Import base list.
From Stdlib Require Import ZArith Lia.
From Stdlib Require Floats.

(** Python exceptions the modelled cells can raise. *)
Inductive exn : Type :=
  | IndexError
  | ZeroDivisionError
  | ValueError
  | OverflowError
  | MemoryError.

Inductive result (A : Type) : Type :=
  | Ok (a : A)
  | Err (e : exn).
Arguments Ok {A} a.
Arguments Err {A} e.

Section Burgers.

(** Floats and the Python operators applied to them. *)
Variable F : Type.
Variables fadd fsub fmul fdiv fpow : F -> F -> F.
(** Conversion of a Python [int] operand to float. *)
Variable of_Z : Z -> F.
(** [np.pi] *)
Variable np_pi : F.
(** [ufunc = lambdify((t, x, nu), u)]: the analytical profile (cells 2-4),
    out of scope of the solver and left abstract. *)
Variable ufunc : F -> F -> F -> F.
(** [==] on floats. *)
Variable feqb : F -> F -> bool.
(** The outcome of allocating a NumPy float array of [n] entries: [None]
    when the allocation succeeds, otherwise the exception NumPy raises
    ([MemoryError], or [ValueError] past its maximum array size). *)
Variable np_alloc : Z -> option exn.

(** ** Store and monad *)

Record St : Type := mkSt { u : list F; un : list F }.

Definition M (A : Type) : Type := St -> result (A * St).

#[local] Instance M_ret : MRet M := fun A a s => Ok (a, s).
#[local] Instance M_bind : MBind M := fun A B f m s =>
  match m s with
  | Ok (a, s') => f a s'
  | Err e => Err e
  end.

(** ** Python indexing on 1D arrays *)

Definition py_index (len i : Z) : Z := if (i <? 0)%Z then (i + len)%Z else i.

(** [l[i]] *)
Definition py_get (l : list F) (i : Z) : result F :=
  let j := py_index (Z.of_nat (length l)) i in
  if (0 <=? j)%Z then
    match l !! Z.to_nat j with
    | Some v => Ok v
    | None => Err IndexError
    end
  else Err IndexError.

(** [l[i] = v] *)
Definition py_set (l : list F) (i : Z) (v : F) : result (list F) :=
  let j := py_index (Z.of_nat (length l)) i in
  if (0 <=? j)%Z && (j <? Z.of_nat (length l))%Z then Ok (<[Z.to_nat j := v]> l)
  else Err IndexError.

Definition get_u (i : Z) : M F := fun s =>
  match py_get (u s) i with Ok v => Ok (v, s) | Err e => Err e end.

Definition get_un (i : Z) : M F := fun s =>
  match py_get (un s) i with Ok v => Ok (v, s) | Err e => Err e end.

Definition set_u (i : Z) (v : F) : M unit := fun s =>
  match py_set (u s) i v with Ok l => Ok (tt, mkSt l (un s)) | Err e => Err e end.

(** [un = u.copy()]: [un] becomes a fresh array holding the values of [u]. *)
Definition copy_snapshot : M unit := fun s => Ok (tt, mkSt (u s) (u s)).

(** [range(lo, hi)] *)
Definition py_range (lo hi : Z) : list Z :=
  map (fun k => (lo + Z.of_nat k)%Z) (seq 0 (Z.to_nat (hi - lo))).

(** [for i in l: body(i)] *)
Fixpoint for_each (l : list Z) (body : Z -> M unit) : M unit :=
  match l with
  | [] => mret tt
  | i :: l' => _ ← body i; for_each l' body
  end.

(** ** Simulation parameters (cell 5) *)

Record params : Type := mkParams {
  nx : Z;
  nt : Z;
  dx : F;
  dt : F;
  nu : F
}.

(** The right-hand side
    [un[i] - un[i] * dt / dx *(un[i] - un[i-1])
       + nu * dt / dx**2 * (un[i+1] - 2 * un[i] + un[i-1])]
    with [um = un[i-1]], [ui = un[i]], [up = un[i+1]]. *)
Definition burgers_update (p : params) (um ui up : F) : F :=
  fadd
    (fsub ui (fmul (fdiv (fmul ui (dt p)) (dx p)) (fsub ui um)))
    (fmul (fdiv (fmul (nu p) (dt p)) (fpow (dx p) (of_Z 2)))
          (fadd (fsub up (fmul (of_Z 2) ui)) um)).

(** Body of [for i in range(1, nx-1)]. *)
Definition interior (p : params) (i : Z) : M unit :=
  ui ← get_un i;
  um ← get_un (i - 1);
  up ← get_un (i + 1);
  set_u i (burgers_update p um ui up).

(** [u[0] = un[0] - un[0] * dt / dx * (un[0] - un[-2])
              + nu * dt / dx**2 * (un[1] - 2 * un[0] + un[-2])]
    followed by [u[-1] = u[0]]. *)
Definition boundary (p : params) : M unit :=
  u0 ← get_un 0;
  um ← get_un (-2);
  up ← get_un 1;
  _ ← set_u 0 (burgers_update p um u0 up);
  v ← get_u 0;
  set_u (-1) v.

(** One iteration of [for n in range(nt)] (cell 6). *)
Definition step (p : params) : M unit :=
  _ ← copy_snapshot;
  _ ← for_each (py_range 1 (nx p - 1)) (interior p);
  boundary p.

(** The same iteration with the interior indices visited in the order [is]. *)
Definition step_order (p : params) (is : list Z) : M unit :=
  _ ← copy_snapshot;
  _ ← for_each is (interior p);
  boundary p.

Fixpoint loop (p : params) (k : nat) : M unit :=
  match k with
  | O => mret tt
  | S k' => _ ← step p; loop p k'
  end.

(** [for n in range(nt): ...] *)
Definition integrate (p : params) : M unit := loop p (Z.to_nat (nt p)).

(** ** Grid and parameter setup (cell 5) *)

(** Python's conversion of an [int] to [float], explicit in [float(n)] and
    implicit in [float / int]: the int is rounded to a binary64 double, and
    an int of magnitude at least [2^1024 - 2^970] (which rounds past the
    largest double) raises [OverflowError]. *)
Definition float_int_limit : Z := (2 ^ 1024 - 2 ^ 970)%Z.

Definition py_float (n : Z) : result F :=
  if (float_int_limit <=? Z.abs n)%Z then Err OverflowError else Ok (of_Z n).

(** [np.linspace(start, stop, num)] with [endpoint=True]:
    [num < 0] raises [ValueError]; [float(num)] is computed for the result
    type; [y = arange(0, num)] is allocated; with [div = num - 1] and
    [delta = stop - start] (both ends already multiplied by [1.0]),
    [y *= step] for [step = delta / div] when [div > 0], except that
    [y = y / div * delta] when [step == 0]; [y = y * delta] when [div <= 0];
    then [y += start], and [y[-1] = stop] when [num > 1]. *)
Definition linspace (start stop : F) (num : Z) : result (list F) :=
  if (num <? 0)%Z then Err ValueError
  else
    match py_float num with
    | Err e => Err e
    | Ok _ =>
        match np_alloc num with
        | Some e => Err e
        | None =>
            let div := (num - 1)%Z in
            let delta := fsub stop start in
            let ys := map (fun k => of_Z (Z.of_nat k)) (seq 0 (Z.to_nat num)) in
            let y :=
              if (0 <? div)%Z then
                let step := fdiv delta (of_Z div) in
                if feqb step (of_Z 0) then map (fun k => fmul (fdiv k (of_Z div)) delta) ys
                else map (fun k => fmul k step) ys
              else map (fun k => fmul k delta) ys in
            let y := map (fun v => fadd v start) y in
            Ok (if (1 <? num)%Z then <[Z.to_nat div := stop]> y else y)
        end
    end.

(** Cell 5:
    [nx = ...; nt = ...; dx = 2 * np.pi / (nx - 1); nu = ...; dt = dx * nu;
     x = np.linspace(0, 2 * np.pi, nx); un = np.empty(nx); t = 0;
     u = np.asarray([ufunc(t, x0, nu) for x0 in x])].
    [2 * np.pi] is a Python float and [nx - 1] a Python int: the int is
    converted first, and a zero divisor (the converted int is [0.0] exactly
    when the int is [0]) raises [ZeroDivisionError].  The contents of
    [np.empty(nx)] are unspecified and passed in as [garbage].  The result
    is the parameters, the coordinate array [x] and the initial store. *)
Definition setup (nx0 nt0 : Z) (nu0 : F) (garbage : list F)
    : result (params * list F * St) :=
  match py_float (nx0 - 1) with
  | Err e => Err e
  | Ok d =>
      if (nx0 - 1 =? 0)%Z then Err ZeroDivisionError
      else
        let dx0 := fdiv (fmul (of_Z 2) np_pi) d in
        let dt0 := fmul dx0 nu0 in
        match linspace (of_Z 0) (fmul (of_Z 2) np_pi) nx0 with
        | Err e => Err e
        | Ok xs =>
            match np_alloc nx0 with
            | Some e => Err e
            | None =>
                let u0 := map (fun x0 => ufunc (of_Z 0) x0 nu0) xs in
                match np_alloc (Z.of_nat (length u0)) with
                | Some e => Err e
                | None => Ok (mkParams nx0 nt0 dx0 dt0 nu0, xs, mkSt u0 garbage)
                end
            end
        end
  end.

(** ** Auxiliary definitions for stating properties *)

(** The value the interior assignment writes at index [j], read from the
    array [U]. *)
Definition stencil_at (p : params) (U : list F) (j : nat) : option F :=
  um ← U !! (j - 1);
  ui ← U !! j;
  up ← U !! S j;
  Some (burgers_update p um ui up).

(** [k] successive successful steps lead from one store to another. *)
Inductive nsteps (p : params) : nat -> St -> St -> Prop :=
  | nsteps_O s : nsteps p 0 s s
  | nsteps_S k s s1 s2 :
      step p s = Ok (tt, s1) -> nsteps p k s1 s2 -> nsteps p (S k) s s2.

(** The field [u] the caller reads after the loop (or the exception). *)
Definition final_field (r : result (unit * St)) : result (list F) :=
  match r with
  | Ok (_, s) => Ok (u s)
  | Err e => Err e
  end.

(** A computation whose only possible exception is [IndexError]. *)
Definition only_index_errors {A} (m : M A) : Prop :=
  forall s e, m s = Err e -> e = IndexError.

(** ** Monad lemmas *)

Lemma bind_Ok {A B} (m : M A) (f : A -> M B) s r :
  (m ≫= f) s = Ok r <-> exists a s', m s = Ok (a, s') /\ f a s' = Ok r.
Proof.
  unfold mbind, M_bind. destruct (m s) as [[a s']|e]; split.
  - eauto.
  - intros (a' & s'' & [= -> ->] & H). exact H.
  - discriminate.
  - intros (? & ? & ? & _). discriminate.
Qed.

Ltac inv_bind H :=
  apply bind_Ok in H; destruct H as (? & ? & ? & H).

Lemma bind_only_index_errors {A B} (m : M A) (f : A -> M B) :
  only_index_errors m -> (forall a, only_index_errors (f a)) ->
  only_index_errors (m ≫= f).
Proof.
  intros Hm Hf s e. unfold mbind, M_bind.
  destruct (m s) as [[a s']|e'] eqn:E; [apply Hf | intros [= <-]; eapply Hm; eauto].
Qed.

Lemma py_get_Err l i e : py_get l i = Err e -> e = IndexError.
Proof.
  unfold py_get. destruct (0 <=? _)%Z; [destruct (_ !! _)|]; congruence.
Qed.

Lemma py_set_Err l i v e : py_set l i v = Err e -> e = IndexError.
Proof. unfold py_set. destruct (_ && _); congruence. Qed.

Lemma get_un_only_index_errors i : only_index_errors (get_un i).
Proof.
  intros s e. unfold get_un. destruct (py_get _ _) eqn:E; [discriminate|].
  intros [= <-]. eapply py_get_Err; eauto.
Qed.

Lemma get_u_only_index_errors i : only_index_errors (get_u i).
Proof.
  intros s e. unfold get_u. destruct (py_get _ _) eqn:E; [discriminate|].
  intros [= <-]. eapply py_get_Err; eauto.
Qed.

Lemma set_u_only_index_errors i v : only_index_errors (set_u i v).
Proof.
  intros s e. unfold set_u. destruct (py_set _ _ _) eqn:E; [discriminate|].
  intros [= <-]. eapply py_set_Err; eauto.
Qed.

Create HintDb pyexn.
#[local] Hint Resolve bind_only_index_errors get_un_only_index_errors
  get_u_only_index_errors set_u_only_index_errors : pyexn.

Lemma interior_only_index_errors p i : only_index_errors (interior p i).
Proof. unfold interior. eauto 10 with pyexn. Qed.

Lemma sweep_only_index_errors p is : only_index_errors (for_each is (interior p)).
Proof.
  induction is as [|i is IH]; simpl.
  - intros s e. discriminate.
  - apply bind_only_index_errors; [apply interior_only_index_errors | intros; exact IH].
Qed.

(** ** Indexing lemmas *)

Lemma py_get_nonneg l i v :
  (0 <= i)%Z -> py_get l i = Ok v <-> l !! Z.to_nat i = Some v.
Proof.
  intros Hi. unfold py_get, py_index.
  destruct (Z.ltb_spec i 0); [lia|]. destruct (Z.leb_spec 0 i); [|lia].
  destruct (l !! Z.to_nat i); split; congruence.
Qed.

Lemma py_get_neg l i v :
  (i < 0)%Z -> py_get l i = Ok v <->
  (0 <= i + Z.of_nat (length l))%Z /\ l !! Z.to_nat (i + Z.of_nat (length l)) = Some v.
Proof.
  intros Hi. unfold py_get, py_index.
  destruct (Z.ltb_spec i 0); [|lia].
  destruct (Z.leb_spec 0 (i + Z.of_nat (length l))).
  - destruct (l !! _); split; try intros [_ ?]; try intros ?; try split; congruence.
  - split; [discriminate | lia].
Qed.

Lemma py_set_nonneg l i v l' :
  (0 <= i)%Z -> py_set l i v = Ok l' <->
  (i < Z.of_nat (length l))%Z /\ l' = <[Z.to_nat i := v]> l.
Proof.
  intros Hi. unfold py_set, py_index.
  destruct (Z.ltb_spec i 0); [lia|]. destruct (Z.leb_spec 0 i); [|lia].
  destruct (Z.ltb_spec i (Z.of_nat (length l))); simpl.
  - split; [intros [= <-]; auto | intros [_ ->]; reflexivity].
  - split; [discriminate | lia].
Qed.

Lemma py_set_neg l i v l' :
  (i < 0)%Z -> py_set l i v = Ok l' <->
  (0 <= i + Z.of_nat (length l))%Z /\
  l' = <[Z.to_nat (i + Z.of_nat (length l)) := v]> l.
Proof.
  intros Hi. unfold py_set, py_index.
  destruct (Z.ltb_spec i 0); [|lia].
  destruct (Z.leb_spec 0 (i + Z.of_nat (length l))); simpl.
  - destruct (Z.ltb_spec (i + Z.of_nat (length l)) (Z.of_nat (length l))); [|lia].
    split; [intros [= <-]; auto | intros [_ ->]; reflexivity].
  - split; [discriminate | lia].
Qed.

Lemma get_un_Ok i s a s' : get_un i s = Ok (a, s') <-> py_get (un s) i = Ok a /\ s' = s.
Proof.
  unfold get_un. destruct (py_get _ _); split; try discriminate.
  - intros [= -> ->]; auto.
  - intros [[= ->] ->]; reflexivity.
  - intros [? _]; discriminate.
Qed.

Lemma get_u_Ok i s a s' : get_u i s = Ok (a, s') <-> py_get (u s) i = Ok a /\ s' = s.
Proof.
  unfold get_u. destruct (py_get _ _); split; try discriminate.
  - intros [= -> ->]; auto.
  - intros [[= ->] ->]; reflexivity.
  - intros [? _]; discriminate.
Qed.

Lemma set_u_Ok i v s r :
  set_u i v s = Ok r <-> exists l, py_set (u s) i v = Ok l /\ r = (tt, mkSt l (un s)).
Proof.
  unfold set_u. destruct (py_set _ _ _); split.
  - intros [= <-]; eauto.
  - intros (l & [= <-] & ->); reflexivity.
  - discriminate.
  - intros (? & ? & _); discriminate.
Qed.

Lemma py_range_elem lo hi x : x ∈ py_range lo hi <-> (lo <= x < hi)%Z.
Proof.
  unfold py_range. rewrite list_elem_of_In, in_map_iff. split.
  - intros (k & <- & Hk). apply in_seq in Hk. lia.
  - intros Hx. exists (Z.to_nat (x - lo)). split; [lia|]. apply in_seq. lia.
Qed.

(** ** The interior sweep *)

Lemma stencil_at_Some p U j v :
  stencil_at p U j = Some v <->
  exists um ui up, U !! (j - 1) = Some um /\ U !! j = Some ui /\
    U !! S j = Some up /\ v = burgers_update p um ui up.
Proof.
  unfold stencil_at. split.
  - destruct (U !! (j - 1)) eqn:E1; [|discriminate]; simpl.
    destruct (U !! j) eqn:E2; [|discriminate]; simpl.
    destruct (U !! S j) eqn:E3; [|discriminate]; simpl.
    intros [= <-]. eauto 10.
  - intros (um & ui & up & -> & -> & -> & ->). reflexivity.
Qed.

Lemma interior_Ok p i s r :
  (1 <= i)%Z -> interior p i s = Ok r ->
  exists v, stencil_at p (un s) (Z.to_nat i) = Some v /\
    (i + 1 < Z.of_nat (length (un s)))%Z /\
    (i < Z.of_nat (length (u s)))%Z /\
    r = (tt, mkSt (<[Z.to_nat i := v]> (u s)) (un s)).
Proof.
  intros Hi H. unfold interior in H.
  inv_bind H. apply get_un_Ok in H0 as [H0 ->].
  inv_bind H. apply get_un_Ok in H1 as [H1 ->].
  inv_bind H. apply get_un_Ok in H2 as [H2 ->].
  apply set_u_Ok in H as (l & Hl & ->).
  apply py_set_nonneg in Hl as [Hlen ->]; [|lia].
  apply py_get_nonneg in H0; [|lia].
  apply py_get_nonneg in H1; [|lia].
  apply py_get_nonneg in H2; [|lia].
  exists (burgers_update p x0 x x1). split; [|split; [|split]]; auto.
  - apply stencil_at_Some. exists x0, x, x1.
    replace (Z.to_nat i - 1) with (Z.to_nat (i - 1)) by lia.
    replace (S (Z.to_nat i)) with (Z.to_nat (i + 1)) by lia. auto.
  - apply lookup_lt_Some in H2. lia.
Qed.

Lemma interior_total p i s :
  (1 <= i)%Z -> (i + 1 < Z.of_nat (length (un s)))%Z ->
  length (u s) = length (un s) ->
  exists v, stencil_at p (un s) (Z.to_nat i) = Some v /\
    interior p i s = Ok (tt, mkSt (<[Z.to_nat i := v]> (u s)) (un s)).
Proof.
  intros Hi Hlt Hlen.
  destruct (lookup_lt_is_Some_2 (un s) (Z.to_nat i - 1)) as [um Hm]; [lia|].
  destruct (lookup_lt_is_Some_2 (un s) (Z.to_nat i)) as [ui Hu]; [lia|].
  destruct (lookup_lt_is_Some_2 (un s) (S (Z.to_nat i))) as [up Hp]; [lia|].
  exists (burgers_update p um ui up). split.
  - apply stencil_at_Some. eauto 10.
  - unfold interior, mbind, M_bind, get_un.
    rewrite (proj2 (py_get_nonneg _ i ui ltac:(lia)) Hu).
    rewrite (proj2 (py_get_nonneg _ (i - 1) um ltac:(lia)))
      by (replace (Z.to_nat (i - 1)) with (Z.to_nat i - 1) by lia; exact Hm).
    rewrite (proj2 (py_get_nonneg _ (i + 1) up ltac:(lia)))
      by (replace (Z.to_nat (i + 1)) with (S (Z.to_nat i)) by lia; exact Hp).
    unfold set_u. rewrite (proj2 (py_set_nonneg _ i _ _ ltac:(lia))) by (split; [lia | reflexivity]).
    reflexivity.
Qed.

(** A successful sweep leaves the snapshot alone and writes, at every visited
    index, the stencil of the snapshot; other entries keep their values. *)
Lemma sweep_Ok p is s r :
  Forall (fun i => 1 <= i)%Z is ->
  length (u s) = length (un s) ->
  for_each is (interior p) s = Ok r ->
  exists u', r = (tt, mkSt u' (un s)) /\ length u' = length (u s) /\
    Forall (fun i => i + 1 < Z.of_nat (length (un s)))%Z is /\
    forall j, u' !! j =
      if decide (Z.of_nat j ∈ is) then stencil_at p (un s) j else u s !! j.
Proof.
  revert s r. induction is as [|i is IH]; intros s r Hpos Hlen H; simpl in H.
  - injection H as <-. destruct s as [us uns]. exists us.
    split; [reflexivity|]. split; [reflexivity|]. split; [constructor|].
    intros j. case_decide as Hin; [by apply not_elem_of_nil in Hin | reflexivity].
  - apply Forall_cons in Hpos as [Hi Hpos].
    inv_bind H. destruct x.
    apply interior_Ok in H0 as (v & Hv & Hlt & Hltu & [= ->]); [|exact Hi].
    apply IH in H as (u' & -> & Hl' & Hb & Hj); [|exact Hpos|simpl; by rewrite length_insert].
    simpl in *. exists u'. split; [reflexivity|].
    rewrite length_insert in Hl'. split; [exact Hl'|].
    split; [constructor; auto|].
    intros j. rewrite Hj, list_lookup_insert.
    destruct (decide (Z.of_nat j ∈ i :: is)) as [Hin'|Hin'];
    destruct (decide (Z.of_nat j ∈ is)) as [Hin|Hin];
    destruct (decide (Z.to_nat i = j ∧ Z.to_nat i < length (u s)))
      as [[<- _]|Hne]; try reflexivity.
    + exact (eq_sym Hv).
    + apply elem_of_cons in Hin' as [Heq|Heq]; [|contradiction].
      exfalso. apply Hne. split; lia.
    + exfalso. apply Hin', elem_of_cons. auto.
    + exfalso. apply Hin', elem_of_cons. auto.
    + exfalso. apply Hin', elem_of_cons. left. lia.
Qed.

Lemma sweep_total p is s :
  Forall (fun i => 1 <= i /\ i + 1 < Z.of_nat (length (un s)))%Z is ->
  length (u s) = length (un s) ->
  exists r, for_each is (interior p) s = Ok r.
Proof.
  revert s. induction is as [|i is IH]; intros s Hb Hlen; simpl.
  - eexists. reflexivity.
  - apply Forall_cons in Hb as [[Hi Hlt] Hb].
    destruct (interior_total p i s Hi Hlt Hlen) as (v & _ & Hint).
    unfold mbind at 1, M_bind at 1. rewrite Hint.
    apply IH; simpl; [exact Hb | by rewrite length_insert].
Qed.

(** ** The periodic boundary update *)

Lemma boundary_Ok p s r :
  length (u s) = length (un s) -> boundary p s = Ok r ->
  exists um u0 up,
    un s !! 0 = Some u0 /\ un s !! (length (un s) - 2) = Some um /\
    un s !! 1 = Some up /\
    r = (tt, mkSt (<[length (u s) - 1 := burgers_update p um u0 up]>
                    (<[0 := burgers_update p um u0 up]> (u s))) (un s)).
Proof.
  intros Hlen H. unfold boundary in H.
  apply bind_Ok in H as (u0 & s1 & H0 & H).
  apply get_un_Ok in H0 as [H0 ->]. apply py_get_nonneg in H0; [|lia].
  apply bind_Ok in H as (um & s1 & H1 & H).
  apply get_un_Ok in H1 as [H1 ->]. apply py_get_neg in H1 as [Hn H1]; [|lia].
  apply bind_Ok in H as (up & s1 & H2 & H).
  apply get_un_Ok in H2 as [H2 ->]. apply py_get_nonneg in H2; [|lia].
  apply bind_Ok in H as (a & s1 & H3 & H).
  apply set_u_Ok in H3 as (l & Hl & [= -> ->]).
  apply py_set_nonneg in Hl as [Hl0 ->]; [|lia].
  apply bind_Ok in H as (v & s1 & H4 & H).
  apply get_u_Ok in H4 as [H4 ->]. simpl in H4.
  apply py_get_nonneg in H4; [|lia].
  rewrite list_lookup_insert_eq in H4 by lia. injection H4 as <-.
  apply set_u_Ok in H as (l' & Hl' & ->). simpl in Hl'.
  apply py_set_neg in Hl' as [Hn' ->]; [|lia].
  rewrite length_insert in Hn' |- *.
  exists um, u0, up. split; [exact H0|]. split.
  - replace (length (un s) - 2) with (Z.to_nat (-2 + Z.of_nat (length (un s)))) by lia.
    exact H1.
  - split; [exact H2|]. do 3 f_equal. lia.
Qed.

Lemma boundary_total p s :
  2 <= length (un s) -> length (u s) = length (un s) ->
  exists r, boundary p s = Ok r.
Proof.
  intros H2 Hlen.
  destruct (lookup_lt_is_Some_2 (un s) 0) as [u0 E0]; [lia|].
  destruct (lookup_lt_is_Some_2 (un s) (length (un s) - 2)) as [um Em]; [lia|].
  destruct (lookup_lt_is_Some_2 (un s) 1) as [up Ep]; [lia|].
  set (v := burgers_update p um u0 up).
  unfold boundary, mbind, M_bind, get_un, get_u, set_u.
  rewrite (proj2 (py_get_nonneg _ 0 u0 ltac:(lia)) E0). cbv beta iota.
  rewrite (proj2 (py_get_neg _ (-2) um ltac:(lia)))
    by (split; [lia|]; replace (Z.to_nat (-2 + Z.of_nat (length (un s))))
                         with (length (un s) - 2) by lia; exact Em).
  cbv beta iota.
  rewrite (proj2 (py_get_nonneg _ 1 up ltac:(lia)) Ep). cbv beta iota.
  rewrite (proj2 (py_set_nonneg (u s) 0 _ _ ltac:(lia))) by (split; [lia | reflexivity]).
  cbv beta iota. simpl (u (mkSt _ _)).
  rewrite (proj2 (py_get_nonneg _ 0 v ltac:(lia)))
    by (apply list_lookup_insert_eq; lia).
  cbv beta iota. simpl (u (mkSt _ _)).
  rewrite (proj2 (py_set_neg _ (-1) v _ ltac:(lia)))
    by (split; [rewrite length_insert; lia | reflexivity]).
  eexists. reflexivity.
Qed.

(** ** One time step *)

Lemma step_is_step_order p : step p = step_order p (py_range 1 (nx p - 1)).
Proof. reflexivity. Qed.

(** The step starts from the snapshot [un = u.copy()]: whatever [un] held
    before is overwritten. *)
Lemma step_order_snapshot p is s :
  step_order p is s =
  (for_each is (interior p) ≫= fun _ => boundary p) (mkSt (u s) (u s)).
Proof. reflexivity. Qed.

Lemma step_same_field p s1 s2 : u s1 = u s2 -> step p s1 = step p s2.
Proof. intros H. rewrite !step_is_step_order, !step_order_snapshot, H. reflexivity. Qed.

Lemma py_range_pos lo hi : (1 <= lo)%Z -> Forall (fun i => 1 <= i)%Z (py_range lo hi).
Proof.
  intros Hlo. apply Forall_forall. intros x Hx.
  apply py_range_elem in Hx. lia.
Qed.

Lemma step_order_Ok p is s r :
  Forall (fun i => 1 <= i)%Z is -> step_order p is s = Ok r ->
  exists s', r = (tt, s') /\ un s' = u s /\ length (u s') = length (u s) /\
    Forall (fun i => i + 1 < Z.of_nat (length (u s)))%Z is /\
    exists um u0 up,
      u s !! 0 = Some u0 /\ u s !! (length (u s) - 2) = Some um /\
      u s !! 1 = Some up /\
      forall j, u s' !! j =
        if decide (j = 0 \/ j = length (u s) - 1)
        then Some (burgers_update p um u0 up)
        else if decide (Z.of_nat j ∈ is) then stencil_at p (u s) j else u s !! j.
Proof.
  intros Hpos H. rewrite step_order_snapshot in H.
  apply bind_Ok in H as (a & s2 & Hsw & H).
  apply sweep_Ok in Hsw as (u' & [= -> ->] & Hl' & Hb & Hj); [|exact Hpos|reflexivity].
  simpl in *.
  apply boundary_Ok in H as (um & u0 & up & H0 & H1 & H2 & ->); [|simpl; exact Hl'].
  simpl in *. pose proof (lookup_lt_Some _ _ _ H2) as HL.
  eexists. split; [reflexivity|]. simpl.
  split; [reflexivity|]. split; [by rewrite !length_insert|].
  split; [exact Hb|].
  exists um, u0, up. split; [exact H0|]. split; [exact H1|]. split; [exact H2|].
  intros j. rewrite !list_lookup_insert, length_insert, Hj, Hl'.
  repeat case_decide; try reflexivity; exfalso; lia.
Qed.

Lemma step_order_total p is s :
  Forall (fun i => 1 <= i /\ i + 1 < Z.of_nat (length (u s)))%Z is ->
  2 <= length (u s) ->
  exists s', step_order p is s = Ok (tt, s') /\ length (u s') = length (u s).
Proof.
  intros Hb H2.
  destruct (sweep_total p is (mkSt (u s) (u s)) Hb eq_refl) as [r Hr].
  pose proof Hr as Hr'.
  apply sweep_Ok in Hr' as (u' & -> & Hl' & _ & _);
    [|eapply Forall_impl; [exact Hb | intros x [Hx _]; exact Hx] | reflexivity].
  simpl in Hl'.
  destruct (boundary_total p (mkSt u' (u s))) as [r' Hr']; [simpl; lia | simpl; lia|].
  pose proof Hr' as Hbd.
  apply boundary_Ok in Hbd as (um & u0 & up & _ & _ & _ & ->); [|simpl; lia].
  eexists. split.
  - rewrite step_order_snapshot. unfold mbind at 1, M_bind at 1. rewrite Hr. exact Hr'.
  - simpl. by rewrite !length_insert.
Qed.

(** On a field of [nx >= 2] points, one step raises nothing. *)
Lemma step_total p s :
  (2 <= nx p)%Z -> length (u s) = Z.to_nat (nx p) ->
  exists s', step p s = Ok (tt, s') /\ length (u s') = length (u s).
Proof.
  intros H2 Hlen. rewrite step_is_step_order. apply step_order_total; [|lia].
  apply Forall_forall. intros x Hx.
  apply py_range_elem in Hx. lia.
Qed.

(** After a step, both ends of the field hold the same value. *)
Lemma step_ends_equal p s s' :
  step p s = Ok (tt, s') ->
  is_Some (u s' !! 0) /\ u s' !! 0 = u s' !! (length (u s') - 1).
Proof.
  intros H. rewrite step_is_step_order in H.
  apply step_order_Ok in H as (s1 & [= <-] & _ & Hl & _ & um & u0 & up & _ & _ & H2 & Hj);
    [|apply py_range_pos; lia].
  pose proof (lookup_lt_Some _ _ _ H2).
  rewrite Hl, !Hj. rewrite !decide_True by lia. split; [eexists|]; reflexivity.
Qed.

(** ** The time loop *)

Lemma loop_S p k s :
  loop p (S k) s = match step p s with Ok (_, s') => loop p k s' | Err e => Err e end.
Proof. reflexivity. Qed.

Lemma loop_add p k m s :
  loop p (k + m) s = match loop p k s with Ok (_, s') => loop p m s' | Err e => Err e end.
Proof.
  revert s. induction k as [|k IH]; intros s; [reflexivity|].
  rewrite Nat.add_succ_l, !loop_S. destruct (step p s) as [[_ s']|e]; [apply IH | reflexivity].
Qed.

Lemma loop_total p k s :
  (2 <= nx p)%Z -> length (u s) = Z.to_nat (nx p) ->
  exists s', loop p k s = Ok (tt, s') /\ nsteps p k s s'.
Proof.
  intros H2. revert s. induction k as [|k IH]; intros s Hlen.
  - exists s. split; [reflexivity | constructor].
  - destruct (step_total p s H2 Hlen) as (s1 & Hs1 & Hl1).
    destruct (IH s1) as (s2 & Hl & Hn); [lia|].
    exists s2. rewrite loop_S, Hs1. split; [exact Hl|]. econstructor; eauto.
Qed.

Lemma sweep_same_indices p is1 is2 s r :
  (forall x, x ∈ is1 <-> x ∈ is2) ->
  Forall (fun i => 1 <= i)%Z is1 -> Forall (fun i => 1 <= i)%Z is2 ->
  length (u s) = length (un s) ->
  for_each is1 (interior p) s = Ok r -> for_each is2 (interior p) s = Ok r.
Proof.
  intros Hiff H1 H2 Hlen Hr.
  pose proof Hr as Hr1. apply sweep_Ok in Hr1 as (u1 & -> & Hl1 & Hb1 & Hj1); auto.
  destruct (sweep_total p is2 s) as [r2 Hr2]; [|exact Hlen|].
  { apply Forall_forall. intros x Hx. split.
    - exact (proj1 (Forall_forall _ _) H2 x Hx).
    - apply Hiff in Hx. exact (proj1 (Forall_forall _ _) Hb1 x Hx). }
  pose proof Hr2 as Hr2'. apply sweep_Ok in Hr2' as (u2 & -> & Hl2 & _ & Hj2); auto.
  rewrite Hr2. do 3 f_equal. apply list_eq. intros j. rewrite Hj1, Hj2.
  destruct (decide (Z.of_nat j ∈ is1)) as [Ha|Ha], (decide (Z.of_nat j ∈ is2)) as [Hb|Hb];
    try reflexivity; exfalso; [apply Hb, Hiff, Ha | apply Ha, Hiff, Hb].
Qed.

Lemma step_order_same_indices p is1 is2 s :
  (forall x, x ∈ is1 <-> x ∈ is2) ->
  Forall (fun i => 1 <= i)%Z is1 -> Forall (fun i => 1 <= i)%Z is2 ->
  step_order p is1 s = step_order p is2 s.
Proof.
  intros Hiff H1 H2. rewrite !step_order_snapshot. unfold mbind, M_bind.
  destruct (for_each is1 (interior p) (mkSt (u s) (u s))) as [r1|e1] eqn:E1.
  - rewrite (sweep_same_indices p is1 is2 (mkSt (u s) (u s)) r1 Hiff H1 H2 eq_refl E1). reflexivity.
  - destruct (for_each is2 (interior p) (mkSt (u s) (u s))) as [r2|e2] eqn:E2.
    + rewrite (sweep_same_indices p is2 is1 (mkSt (u s) (u s)) r2 (fun x => iff_sym (Hiff x)) H2 H1 eq_refl E2)
        in E1. discriminate.
    + rewrite (sweep_only_index_errors p is1 _ _ E1), (sweep_only_index_errors p is2 _ _ E2).
      reflexivity.
Qed.

(** ** Properties of the solver *)

Lemma float_int_limit_big : (2 < float_int_limit)%Z.
Proof. unfold float_int_limit. reflexivity. Qed.

Lemma linspace_Ok start stop num :
  (0 <= num < float_int_limit)%Z -> np_alloc num = None ->
  exists xs, linspace start stop num = Ok xs /\ length xs = Z.to_nat num.
Proof.
  intros Hn Ha. unfold linspace, py_float.
  destruct (Z.ltb_spec num 0); [lia|].
  destruct (Z.leb_spec float_int_limit (Z.abs num)); [lia|].
  rewrite Ha. eexists. split; [reflexivity|].
  assert (Hy : forall y : list F, length y = Z.to_nat num ->
    length (if (1 <? num)%Z then <[Z.to_nat (num - 1) := stop]> y else y) = Z.to_nat num).
  { intros y Hy. destruct (1 <? num)%Z; [rewrite length_insert|]; exact Hy. }
  apply Hy. rewrite length_map.
  destruct (0 <? num - 1)%Z; [destruct feqb|];
    rewrite length_map, length_map, length_seq; reflexivity.
Qed.

(** C1: after a step, every interior index [1 <= i <= nx-2] holds the
    explicit Burgers' update of the snapshot [un] (a copy of the field at the
    start of the step): backward difference for convection, scaled by
    [un[i]], and central second difference for diffusion, scaled by [nu]. *)
Theorem step_interior_update p s s' :
  step p s = Ok (tt, s') ->
  un s' = u s /\
  forall i : nat, 1 <= i -> (Z.of_nat i <= nx p - 2)%Z ->
    exists um ui up,
      un s' !! (i - 1) = Some um /\ un s' !! i = Some ui /\
      un s' !! S i = Some up /\
      u s' !! i = Some (burgers_update p um ui up).
Proof.
  intros H. rewrite step_is_step_order in H.
  apply step_order_Ok in H as (s1 & [= <-] & Hun & Hl & Hb & um & u0 & up & _ & _ & _ & Hj);
    [|apply py_range_pos; lia].
  split; [exact Hun|]. intros i Hi Hin.
  assert (Hmem : Z.of_nat i ∈ py_range 1 (nx p - 1)) by (apply py_range_elem; lia).
  pose proof (proj1 (Forall_forall _ _) Hb _ Hmem) as Hlt. simpl in Hlt.
  destruct (lookup_lt_is_Some_2 (u s) (i - 1)) as [a Ea]; [lia|].
  destruct (lookup_lt_is_Some_2 (u s) i) as [b Eb]; [lia|].
  destruct (lookup_lt_is_Some_2 (u s) (S i)) as [c Ec]; [lia|].
  rewrite Hun. exists a, b, c. split; [exact Ea|]. split; [exact Eb|]. split; [exact Ec|].
  rewrite Hj, decide_False by lia. rewrite decide_True by exact Hmem.
  apply stencil_at_Some. eauto 10.
Qed.

(** C2: on a field of [nx] points, a step sets index 0 to the update of the
    snapshot with [un[nx-2]] as the wraparound left neighbour and [un[1]] as
    the right neighbour, and the last index to that new index-0 value. *)
Theorem step_periodic_boundary p s s' :
  length (u s) = Z.to_nat (nx p) ->
  step p s = Ok (tt, s') ->
  un s' = u s /\
  exists um u0 up,
    un s' !! 0 = Some u0 /\ un s' !! (Z.to_nat (nx p) - 2) = Some um /\
    un s' !! 1 = Some up /\
    u s' !! 0 = Some (burgers_update p um u0 up) /\
    u s' !! (Z.to_nat (nx p) - 1) = u s' !! 0.
Proof.
  intros Hlen H. rewrite step_is_step_order in H.
  apply step_order_Ok in H as (s1 & [= <-] & Hun & Hl & _ & um & u0 & up & H0 & H1 & H2 & Hj);
    [|apply py_range_pos; lia].
  split; [exact Hun|]. rewrite Hun, <- Hlen.
  exists um, u0, up. split; [exact H0|]. split; [exact H1|]. split; [exact H2|].
  rewrite !Hj, !decide_True by lia. split; reflexivity.
Qed.

(** C3: whenever [n] steps run, the field after each step [k] (for
    [1 <= k <= n]) has equal first and last entries. *)
Theorem loop_periodic_every_step p n s sn :
  loop p n s = Ok (tt, sn) ->
  forall k, 1 <= k <= n ->
    exists sk, loop p k s = Ok (tt, sk) /\
      is_Some (u sk !! 0) /\ u sk !! 0 = u sk !! (length (u sk) - 1).
Proof.
  intros H k Hk.
  replace n with (k + (n - k)) in H by lia. rewrite loop_add in H.
  destruct (loop p k s) as [[[] sk]|e] eqn:Ek; [|discriminate].
  exists sk. split; [reflexivity|].
  assert (Ek' : loop p ((k - 1) + 1) s = Ok (tt, sk))
    by (replace ((k - 1) + 1) with k by lia; exact Ek).
  clear Ek. rename Ek' into Ek. rewrite loop_add in Ek.
  destruct (loop p (k - 1) s) as [[[] s0]|e] eqn:E0; [|discriminate].
  rewrite loop_S in Ek.
  destruct (step p s0) as [[[] s1]|e] eqn:Es; [|discriminate].
  injection Ek as <-. exact (step_ends_equal p s0 s1 Es).
Qed.

(** C4: a step reads only the snapshot taken at its start.  Visiting the
    interior indices in any order gives the same result as the source's
    order, and the result depends on the store only through the field [u]
    copied into the snapshot, not on the previous contents of [un]. *)
Theorem step_reads_snapshot_only p :
  (forall is s, is ≡ₚ py_range 1 (nx p - 1) -> step_order p is s = step p s) /\
  (forall s1 s2, u s1 = u s2 -> step p s1 = step p s2).
Proof.
  split.
  - intros is s Hperm. rewrite step_is_step_order.
    assert (Hiff : forall x, x ∈ is <-> x ∈ py_range 1 (nx p - 1)).
    { intros x. rewrite !list_elem_of_In. split; intros Hx.
      - exact (Permutation_in x Hperm Hx).
      - exact (Permutation_in x (Permutation_sym Hperm) Hx). }
    apply step_order_same_indices; [exact Hiff| |].
    + apply Forall_forall. intros x Hx. apply Hiff, py_range_elem in Hx. lia.
    + apply py_range_pos. lia.
  - apply step_same_field.
Qed.

(** C5 (amended): on a field of [nx >= 2] points, the loop runs exactly
    [nt] full steps and always ends normally after the last one. *)
Theorem integrate_full_iterations p s :
  (2 <= nx p)%Z -> length (u s) = Z.to_nat (nx p) ->
  exists s', integrate p s = Ok (tt, s') /\ nsteps p (Z.to_nat (nt p)) s s'.
Proof. intros H2 Hlen. unfold integrate. apply loop_total; assumption. Qed.

(** C6: with [nt = 0] the loop body never runs and the store is unchanged. *)
Theorem integrate_zero_steps p s : nt p = 0%Z -> integrate p s = Ok (tt, s).
Proof. intros H. unfold integrate. rewrite H. reflexivity. Qed.

(** C7: runs with the same parameters and the same initial field give the
    same final field (or the same exception), whatever [np.empty] left in
    [un]. *)
Theorem integrate_deterministic p s1 s2 :
  u s1 = u s2 -> final_field (integrate p s1) = final_field (integrate p s2).
Proof.
  intros H. unfold integrate. destruct (Z.to_nat (nt p)) as [|k].
  - simpl. rewrite H. reflexivity.
  - rewrite !loop_S, (step_same_field p s1 s2 H). reflexivity.
Qed.

(** C8 (amended): setup validates nothing and raises no configuration
    error; its exceptions are Python's and NumPy's.  [nx = 1] raises
    [ZeroDivisionError] in [dx = 2 * np.pi / (nx - 1)]; an [nx] with
    [|nx - 1| >= 2^1024 - 2^970], or [nx = 2^1024 - 2^970] (through
    [float(num)] in [np.linspace]), raises [OverflowError]; any other
    [nx < 0] raises [ValueError] in [np.linspace].  For the remaining
    [nx >= 0], [nx <> 1], setup fails only when NumPy cannot allocate an
    array of [nx] floats, with NumPy's exception; otherwise it returns the
    spacing [2 * pi / (nx - 1)] and [nx] coordinates ([nx = 0] gives an
    empty grid). *)
Theorem setup_point_count :
  (forall nt0 nu0 g, setup 1 nt0 nu0 g = Err ZeroDivisionError) /\
  (forall nx0 nt0 nu0 g,
     (float_int_limit <= Z.abs (nx0 - 1) \/ float_int_limit <= nx0)%Z ->
     setup nx0 nt0 nu0 g = Err OverflowError) /\
  (forall nx0 nt0 nu0 g, (nx0 < 0)%Z -> (Z.abs (nx0 - 1) < float_int_limit)%Z ->
     setup nx0 nt0 nu0 g = Err ValueError) /\
  (forall nx0 nt0 nu0 g e, (0 <= nx0 < float_int_limit)%Z -> nx0 <> 1%Z ->
     np_alloc nx0 = Some e -> setup nx0 nt0 nu0 g = Err e) /\
  (forall nx0 nt0 nu0 g, (0 <= nx0 < float_int_limit)%Z -> nx0 <> 1%Z ->
     np_alloc nx0 = None ->
     exists p xs s, setup nx0 nt0 nu0 g = Ok (p, xs, s) /\ nx p = nx0 /\
       dx p = fdiv (fmul (of_Z 2) np_pi) (of_Z (nx0 - 1)) /\
       length xs = Z.to_nat nx0 /\ length (u s) = Z.to_nat nx0).
Proof.
  pose proof float_int_limit_big as Hbig.
  unfold setup, py_float. split; [|split; [|split; [|split]]].
  - intros. destruct (Z.leb_spec float_int_limit (Z.abs (1 - 1))); [lia | reflexivity].
  - intros nx0 nt0 nu0 g Hn.
    destruct (Z.leb_spec float_int_limit (Z.abs (nx0 - 1))) as [H|H]; [reflexivity|].
    destruct Hn as [Hn|Hn]; [lia|].
    destruct (Z.eqb_spec (nx0 - 1) 0); [lia|].
    unfold linspace, py_float.
    destruct (Z.ltb_spec nx0 0); [lia|].
    destruct (Z.leb_spec float_int_limit (Z.abs nx0)); [reflexivity | lia].
  - intros nx0 nt0 nu0 g Hn Hl.
    destruct (Z.leb_spec float_int_limit (Z.abs (nx0 - 1))); [lia|].
    destruct (Z.eqb_spec (nx0 - 1) 0); [lia|].
    unfold linspace. destruct (Z.ltb_spec nx0 0); [reflexivity | lia].
  - intros nx0 nt0 nu0 g e Hn H1 Ha.
    destruct (Z.leb_spec float_int_limit (Z.abs (nx0 - 1))); [lia|].
    destruct (Z.eqb_spec (nx0 - 1) 0); [lia|].
    unfold linspace, py_float. destruct (Z.ltb_spec nx0 0); [lia|].
    destruct (Z.leb_spec float_int_limit (Z.abs nx0)); [lia|].
    rewrite Ha. reflexivity.
  - intros nx0 nt0 nu0 g Hn H1 Ha.
    destruct (Z.leb_spec float_int_limit (Z.abs (nx0 - 1))); [lia|].
    destruct (Z.eqb_spec (nx0 - 1) 0); [lia|].
    destruct (linspace_Ok (of_Z 0) (fmul (of_Z 2) np_pi) nx0 ltac:(lia) Ha)
      as (xs & Hxs & Hlen).
    rewrite Hxs, Ha, length_map, Hlen, Z2Nat.id, Ha by lia.
    do 3 eexists. split; [reflexivity|]. simpl.
    rewrite length_map. repeat split; assumption.
Qed.

(** C10: on a field of [nx >= 3] points, no index used in a step is out of
    range: the step raises no [IndexError] and keeps the field's length. *)
Theorem step_in_bounds p s :
  length (u s) = Z.to_nat (nx p) -> (3 <= nx p)%Z ->
  exists s', step p s = Ok (tt, s') /\ length (u s') = length (u s).
Proof. intros Hlen H3. apply step_total; [lia | exact Hlen]. Qed.

(** ** Further properties of the time loop *)

Lemma step_length p s s' : step p s = Ok (tt, s') -> length (u s') = length (u s).
Proof.
  intros H. rewrite step_is_step_order in H.
  apply step_order_Ok in H as (s1 & [= <-] & _ & Hl & _); [exact Hl|].
  apply py_range_pos; lia.
Qed.

(** However many steps run, the field keeps its length. *)
Theorem loop_preserves_length p k s s' :
  loop p k s = Ok (tt, s') -> length (u s') = length (u s).
Proof.
  revert s. induction k as [|k IH]; intros s H.
  - injection H as <-. reflexivity.
  - rewrite loop_S in H. destruct (step p s) as [[[] s1]|e] eqn:E; [|discriminate].
    rewrite (IH _ H). exact (step_length p s s1 E).
Qed.

Lemma step_uniform p s s' c :
  Forall (fun x => x = c) (u s) -> burgers_update p c c c = c ->
  step p s = Ok (tt, s') -> u s' = u s.
Proof.
  intros Hc Hfix H. rewrite step_is_step_order in H.
  apply step_order_Ok in H as (s1 & [= <-] & _ & Hl & Hb & um & u0 & up & H0 & H1 & H2 & Hj);
    [|apply py_range_pos; lia].
  pose proof (lookup_lt_Some _ _ _ H2) as HL.
  rewrite (Forall_lookup_1 _ _ _ _ Hc H0), (Forall_lookup_1 _ _ _ _ Hc H1),
    (Forall_lookup_1 _ _ _ _ Hc H2) in Hj.
  apply list_eq. intros j. rewrite Hj, Hfix.
  case_decide as Hend.
  - destruct (lookup_lt_is_Some_2 (u s) j) as [x Hx]; [lia|].
    rewrite Hx, (Forall_lookup_1 _ _ _ _ Hc Hx). reflexivity.
  - case_decide as Hin; [|reflexivity].
    pose proof (proj1 (Forall_forall _ _) Hb _ Hin) as Hlt.
    pose proof (proj1 (Forall_forall _ _) (py_range_pos 1 (nx p - 1) ltac:(lia)) _ Hin) as Hge.
    simpl in Hlt, Hge.
    destruct (lookup_lt_is_Some_2 (u s) (j - 1)) as [a Ea]; [lia|].
    destruct (lookup_lt_is_Some_2 (u s) j) as [b Eb]; [lia|].
    destruct (lookup_lt_is_Some_2 (u s) (S j)) as [d Ed]; [lia|].
    unfold stencil_at. rewrite Ea, Eb, Ed. simpl.
    rewrite (Forall_lookup_1 _ _ _ _ Hc Ea), (Forall_lookup_1 _ _ _ _ Hc Eb),
      (Forall_lookup_1 _ _ _ _ Hc Ed), Hfix. reflexivity.
Qed.

(** A uniform field [c] whose update [burgers_update p c c c] is [c] (as in
    exact arithmetic, where both differences vanish) is left unchanged by
    any number of steps. *)
Theorem loop_uniform p k s s' c :
  Forall (fun x => x = c) (u s) -> burgers_update p c c c = c ->
  loop p k s = Ok (tt, s') -> u s' = u s.
Proof.
  intros Hc Hfix. revert s Hc. induction k as [|k IH]; intros s Hc H.
  - injection H as <-. reflexivity.
  - rewrite loop_S in H. destruct (step p s) as [[[] s1]|e] eqn:E; [|discriminate].
    pose proof (step_uniform p s s1 c Hc Hfix E) as Hs1.
    rewrite <- Hs1. apply (IH s1); [rewrite Hs1; exact Hc | exact H].
Qed.

(** On a periodic field of [nx] points (first entry equal to the last), a
    step applies the update stencil on the ring of the [nx - 1] distinct
    points: every index [j < nx - 1] receives the update of its cyclic
    neighbours [(j - 1) mod (nx - 1)] and [(j + 1) mod (nx - 1)]. *)
Theorem step_periodic_ring p s s' :
  length (u s) = Z.to_nat (nx p) ->
  u s !! 0 = u s !! (length (u s) - 1) ->
  step p s = Ok (tt, s') ->
  forall j, j < length (u s) - 1 ->
    exists um uj up,
      u s !! ((j + length (u s) - 2) mod (length (u s) - 1)) = Some um /\
      u s !! j = Some uj /\
      u s !! ((j + 1) mod (length (u s) - 1)) = Some up /\
      u s' !! j = Some (burgers_update p um uj up).
Proof.
  intros Hlen Hper H. rewrite step_is_step_order in H.
  apply step_order_Ok in H as (s1 & [= <-] & _ & _ & _ & um & u0 & up & H0 & H1 & H2 & Hj);
    [|apply py_range_pos; lia].
  pose proof (lookup_lt_Some _ _ _ H2) as HL.
  set (L := length (u s)) in *.
  intros j Hjl.
  destruct (decide (j = 0)) as [->|Hj0].
  - exists um, u0, up. split; [|split; [exact H0|split]].
    + rewrite Nat.mod_small by lia. replace (0 + L - 2) with (L - 2) by lia. exact H1.
    + destruct (decide (L = 2)) as [E2|E2].
      * rewrite E2. simpl. rewrite <- H2. rewrite Hper. f_equal. lia.
      * rewrite Nat.mod_small by lia. exact H2.
    + rewrite Hj, decide_True by lia. reflexivity.
  - assert (Hin : Z.of_nat j ∈ py_range 1 (nx p - 1)) by (apply py_range_elem; lia).
    destruct (lookup_lt_is_Some_2 (u s) (j - 1)) as [a Ea]; [lia|].
    destruct (lookup_lt_is_Some_2 (u s) j) as [b Eb]; [lia|].
    destruct (lookup_lt_is_Some_2 (u s) (S j)) as [d Ed]; [lia|].
    exists a, b, d. split; [|split; [exact Eb|split]].
    + replace (j + L - 2) with ((j - 1) + 1 * (L - 1)) by lia.
      rewrite Nat.Div0.mod_add, Nat.mod_small by lia. exact Ea.
    + destruct (decide (j + 1 = L - 1)) as [E|E].
      * rewrite E, Nat.Div0.mod_same, Hper. rewrite <- Ed. f_equal. lia.
      * rewrite Nat.mod_small by lia. rewrite <- Ed. f_equal. lia.
    + rewrite Hj, decide_False by lia. rewrite decide_True by exact Hin.
      unfold stencil_at. rewrite Ea, Eb, Ed. reflexivity.
Qed.

End Burgers.

(** * Concrete runs

    The generic development instantiated with integer arithmetic ([Z] with
    truncating division), only to exercise the statements on explicit
    stores. *)

Definition zid (z : Z) : Z := z.

Abbreviation stepZ := (step Z Z.add Z.sub Z.mul Z.div Z.pow zid).
Abbreviation step_orderZ := (step_order Z Z.add Z.sub Z.mul Z.div Z.pow zid).
Abbreviation loopZ := (loop Z Z.add Z.sub Z.mul Z.div Z.pow zid).
Abbreviation integrateZ := (integrate Z Z.add Z.sub Z.mul Z.div Z.pow zid).
Abbreviation updateZ := (burgers_update Z Z.add Z.sub Z.mul Z.div Z.pow zid).
(** An allocator that holds arrays of up to [cap] entries. *)
Definition alloc_upto (cap n : Z) : option exn :=
  if (n <=? cap)%Z then None else Some MemoryError.

Abbreviation setupZ :=
  (setup Z Z.add Z.sub Z.mul Z.div zid 3%Z (fun _ x _ => x) Z.eqb (alloc_upto (2 ^ 32))).

(** Five grid points, [nt = 2], [dx = dt = nu = 1]. *)
Definition p5 : params Z := mkParams Z 5%Z 2%Z 1%Z 1%Z 1%Z.
Definition p5_zero : params Z := mkParams Z 5%Z 0%Z 1%Z 1%Z 1%Z.
Definition s5 : St Z := mkSt Z [1; 2; 3; 4; 5]%Z [9]%Z.
(** Same field, different leftover contents of [un]. *)
Definition s5_other : St Z := mkSt Z [1; 2; 3; 4; 5]%Z [0; 0]%Z.
Definition s5_one : St Z := mkSt Z [8; 0; 0; 0; 8]%Z [1; 2; 3; 4; 5]%Z.
Definition s5_two : St Z := mkSt Z [-72; 8; 0; 8; -72]%Z [8; 0; 0; 0; 8]%Z.

Example step_s5 : stepZ p5 s5 = Ok (tt, s5_one).
Proof. reflexivity. Qed.

Example loop_s5 : loopZ p5 2 s5 = Ok (tt, s5_two).
Proof. reflexivity. Qed.

Lemma step_interior_update_witness :
  stepZ p5 s5 = Ok (tt, s5_one) /\
  un Z s5_one = u Z s5 /\
  forall i : nat, 1 <= i -> (Z.of_nat i <= nx Z p5 - 2)%Z ->
    exists um ui up,
      un Z s5_one !! (i - 1) = Some um /\ un Z s5_one !! i = Some ui /\
      un Z s5_one !! S i = Some up /\
      u Z s5_one !! i = Some (updateZ p5 um ui up).
Proof.
  split; [reflexivity|].
  apply (step_interior_update Z Z.add Z.sub Z.mul Z.div Z.pow zid p5 s5 s5_one).
  reflexivity.
Defined.

Lemma step_periodic_boundary_witness :
  (length (u Z s5) = Z.to_nat (nx Z p5) /\ stepZ p5 s5 = Ok (tt, s5_one)) /\
  un Z s5_one = u Z s5 /\
  exists um u0 up,
    un Z s5_one !! 0 = Some u0 /\ un Z s5_one !! (Z.to_nat (nx Z p5) - 2) = Some um /\
    un Z s5_one !! 1 = Some up /\
    u Z s5_one !! 0 = Some (updateZ p5 um u0 up) /\
    u Z s5_one !! (Z.to_nat (nx Z p5) - 1) = u Z s5_one !! 0.
Proof.
  split; [split; reflexivity|].
  apply (step_periodic_boundary Z Z.add Z.sub Z.mul Z.div Z.pow zid p5 s5 s5_one);
    reflexivity.
Defined.

Lemma loop_periodic_every_step_witness :
  loopZ p5 2 s5 = Ok (tt, s5_two) /\
  forall k, 1 <= k <= 2 ->
    exists sk, loopZ p5 k s5 = Ok (tt, sk) /\
      is_Some (u Z sk !! 0) /\ u Z sk !! 0 = u Z sk !! (length (u Z sk) - 1).
Proof.
  split; [reflexivity|].
  apply (loop_periodic_every_step Z Z.add Z.sub Z.mul Z.div Z.pow zid p5 2 s5 s5_two).
  reflexivity.
Defined.

Lemma step_reads_snapshot_only_witness :
  ([3; 1; 2]%Z ≡ₚ py_range 1 (nx Z p5 - 1) /\ u Z s5 = u Z s5_other) /\
  step_orderZ p5 [3; 1; 2]%Z s5 = stepZ p5 s5 /\ stepZ p5 s5 = stepZ p5 s5_other.
Proof.
  split.
  - split; [apply (bool_decide_unpack _); vm_compute; reflexivity | reflexivity].
  - split.
    + apply (proj1 (step_reads_snapshot_only Z Z.add Z.sub Z.mul Z.div Z.pow zid p5)).
      apply (bool_decide_unpack _). vm_compute. reflexivity.
    + apply (proj2 (step_reads_snapshot_only Z Z.add Z.sub Z.mul Z.div Z.pow zid p5)).
      reflexivity.
Defined.

Lemma integrate_full_iterations_witness :
  ((2 <= nx Z p5)%Z /\ length (u Z s5) = Z.to_nat (nx Z p5)) /\
  exists s', integrateZ p5 s5 = Ok (tt, s') /\
    nsteps Z Z.add Z.sub Z.mul Z.div Z.pow zid p5 (Z.to_nat (nt Z p5)) s5 s'.
Proof.
  split; [split; [unfold p5; simpl; lia | reflexivity]|].
  apply (integrate_full_iterations Z Z.add Z.sub Z.mul Z.div Z.pow zid p5 s5);
    [unfold p5; simpl; lia | reflexivity].
Defined.

(** A zero-point grid passes setup, and the first iteration of the loop
    then raises [IndexError] at [un[0]]. *)
Lemma integrate_empty_grid_raises :
  exists p xs s, setupZ 0%Z 1%Z 1%Z [] = Ok (p, xs, s) /\ nt Z p = 1%Z /\
    integrateZ p s = Err IndexError.
Proof. do 3 eexists. split; [reflexivity|]. split; reflexivity. Qed.

Lemma integrate_zero_steps_witness :
  nt Z p5_zero = 0%Z /\ integrateZ p5_zero s5 = Ok (tt, s5).
Proof.
  split; [reflexivity|].
  apply (integrate_zero_steps Z Z.add Z.sub Z.mul Z.div Z.pow zid p5_zero s5).
  reflexivity.
Defined.

Lemma integrate_deterministic_witness :
  u Z s5 = u Z s5_other /\
  final_field Z (integrateZ p5 s5) = final_field Z (integrateZ p5 s5_other).
Proof.
  split; [reflexivity|].
  apply (integrate_deterministic Z Z.add Z.sub Z.mul Z.div Z.pow zid p5 s5 s5_other).
  reflexivity.
Defined.

(** Point counts below two: [nx = 0] passes setup and [nx = 1] raises
    [ZeroDivisionError]; neither is a configuration error.  A point count
    of [10^400] raises [OverflowError] when [nx - 1] is converted to float. *)
Lemma setup_small_grid :
  (exists r, setupZ 0%Z 1%Z 1%Z [] = Ok r) /\ setupZ 1%Z 1%Z 1%Z [] = Err ZeroDivisionError /\
  setupZ (10 ^ 400)%Z 1%Z 1%Z [] = Err OverflowError.
Proof. split; [eexists|split]; vm_compute; reflexivity. Qed.

Lemma setup_point_count_witness :
  (((float_int_limit <= Z.abs (10 ^ 400 - 1) \/ float_int_limit <= 10 ^ 400)%Z /\
    setupZ (10 ^ 400)%Z 1%Z 1%Z [] = Err OverflowError) /\
   ((-1 < 0)%Z /\ (Z.abs (-1 - 1) < float_int_limit)%Z /\
    setupZ (-1)%Z 1%Z 1%Z [] = Err ValueError)) /\
  (((0 <= 2 ^ 40 < float_int_limit)%Z /\ (2 ^ 40)%Z <> 1%Z /\
    alloc_upto (2 ^ 32) (2 ^ 40) = Some MemoryError /\
    setupZ (2 ^ 40)%Z 1%Z 1%Z [] = Err MemoryError) /\
   ((0 <= 3 < float_int_limit)%Z /\ 3%Z <> 1%Z /\ alloc_upto (2 ^ 32) 3 = None /\
    exists p xs s, setupZ 3%Z 1%Z 1%Z [] = Ok (p, xs, s) /\ nx Z p = 3%Z /\
      dx Z p = Z.div (Z.mul (zid 2) 3) (zid (3 - 1)) /\
      length xs = Z.to_nat 3 /\ length (u Z s) = Z.to_nat 3)).
Proof.
  pose proof (setup_point_count Z Z.add Z.sub Z.mul Z.div zid 3%Z (fun _ x _ => x) Z.eqb
                (alloc_upto (2 ^ 32))) as (_ & Hov & Hneg & Hal & Hok).
  split; split.
  - assert (Hh : (float_int_limit <= Z.abs (10 ^ 400 - 1) \/ float_int_limit <= 10 ^ 400)%Z)
      by (left; vm_compute; discriminate).
    split; [exact Hh | exact (Hov _ 1%Z 1%Z [] Hh)].
  - assert (Hh : (Z.abs (-1 - 1) < float_int_limit)%Z) by (vm_compute; reflexivity).
    split; [lia|]. split; [exact Hh|]. apply Hneg; [lia | exact Hh].
  - assert (Hh : (0 <= 2 ^ 40 < float_int_limit)%Z)
      by (split; vm_compute; [discriminate | reflexivity]).
    split; [exact Hh|]. split; [vm_compute; discriminate|].
    split; [vm_compute; reflexivity|].
    apply Hal; [exact Hh | vm_compute; discriminate | vm_compute; reflexivity].
  - assert (Hh : (0 <= 3 < float_int_limit)%Z)
      by (split; vm_compute; [discriminate | reflexivity]).
    split; [exact Hh|]. split; [lia|]. split; [vm_compute; reflexivity|].
    apply Hok; [exact Hh | lia | vm_compute; reflexivity].
Defined.

Lemma step_in_bounds_witness :
  (length (u Z s5) = Z.to_nat (nx Z p5) /\ (3 <= nx Z p5)%Z) /\
  exists s', stepZ p5 s5 = Ok (tt, s') /\ length (u Z s') = length (u Z s5).
Proof.
  split; [split; [reflexivity | unfold p5; simpl; lia]|].
  apply (step_in_bounds Z Z.add Z.sub Z.mul Z.div Z.pow zid p5 s5);
    [reflexivity | unfold p5; simpl; lia].
Defined.

(** Witnesses for the further properties. *)

Definition s5_flat : St Z := mkSt Z [3; 3; 3; 3; 3]%Z [].
Definition s5_flat2 : St Z := mkSt Z [3; 3; 3; 3; 3]%Z [3; 3; 3; 3; 3]%Z.
(** A periodic field: first and last entries agree. *)
Definition s5_per : St Z := mkSt Z [1; 2; 3; 4; 1]%Z [].
Definition s5_per_one : St Z := mkSt Z [8; 0; 0; -4; 8]%Z [1; 2; 3; 4; 1]%Z.

Lemma loop_preserves_length_witness :
  loopZ p5 2 s5 = Ok (tt, s5_two) /\ length (u Z s5_two) = length (u Z s5).
Proof.
  split; [reflexivity|].
  apply (loop_preserves_length Z Z.add Z.sub Z.mul Z.div Z.pow zid p5 2 s5 s5_two).
  reflexivity.
Defined.

Lemma loop_uniform_witness :
  (Forall (fun x => x = 3%Z) (u Z s5_flat) /\ updateZ p5 3%Z 3%Z 3%Z = 3%Z /\
   loopZ p5 2 s5_flat = Ok (tt, s5_flat2)) /\
  u Z s5_flat2 = u Z s5_flat.
Proof.
  split; [split; [repeat constructor | split; reflexivity]|].
  apply (loop_uniform Z Z.add Z.sub Z.mul Z.div Z.pow zid p5 2 s5_flat s5_flat2 3%Z);
    [repeat constructor | reflexivity | reflexivity].
Defined.

Lemma step_periodic_ring_witness :
  (length (u Z s5_per) = Z.to_nat (nx Z p5) /\
   u Z s5_per !! 0 = u Z s5_per !! (length (u Z s5_per) - 1) /\
   stepZ p5 s5_per = Ok (tt, s5_per_one)) /\
  forall j, j < length (u Z s5_per) - 1 ->
    exists um uj up,
      u Z s5_per !! ((j + length (u Z s5_per) - 2) mod (length (u Z s5_per) - 1)) = Some um /\
      u Z s5_per !! j = Some uj /\
      u Z s5_per !! ((j + 1) mod (length (u Z s5_per) - 1)) = Some up /\
      u Z s5_per_one !! j = Some (updateZ p5 um uj up).
Proof.
  split; [split; [reflexivity | split; reflexivity]|].
  apply (step_periodic_ring Z Z.add Z.sub Z.mul Z.div Z.pow zid p5 s5_per s5_per_one);
    reflexivity.
Defined.

(** * The notebook's own run, in binary64 arithmetic

    Python floats and NumPy [float64] values are IEEE binary64 doubles with
    round-to-nearest-even, which Rocq's primitive floats implement; the
    generic model is instantiated with them to run cells 5 and 6 with the
    notebook's configuration [nx = 101], [nt = 100], [nu = 0.07]. *)

Module Binary64.
Import Floats.

(** Conversion of a Python [int] to [float], correctly rounded. *)
Definition of_Z64 (z : Z) : float :=
  SF2Prim (SpecFloat.binary_normalize prec emax z 0%Z false).

(** [a ** b] on floats.  The program only squares ([dx**2] and the
    [(...)**2] of the analytical profile), and [pow(a, 2.0)] is the
    correctly rounded [a * a]. *)
Definition pow64 (a b : float) : float :=
  if PrimFloat.eqb b 2%float then (a * a)%float else nan.

(** [math.pi], [np.pi]: the double nearest to pi. *)
Definition np_pi64 : float := 0x1.921fb54442d18p+1%float.

(** Truncation toward zero of a finite double to an integer. *)
Definition trunc_Z (x : float) : Z :=
  match Prim2SF x with
  | S754_finite sg m e =>
      let z := if (0 <=? e)%Z then Z.shiftl (Zpos m) e else Z.shiftr (Zpos m) (- e) in
      if sg then (- z)%Z else z
  | _ => 0%Z
  end.

(** [1 + r (1 + r/2 (1 + r/3 (... (1 + r/n))))]: the Taylor polynomial of
    degree [n] of [exp r] in Horner form. *)
Fixpoint exp_taylor (n : nat) (r acc : float) : float :=
  match n with
  | O => acc
  | S n' => exp_taylor n' r (1 + r * acc / of_Z64 (Z.of_nat (S n')))%float
  end.

(** The exponential used by [numpy.exp] in the lambdified profile.  NumPy
    does not fix its result bit for bit; this one reduces the argument by
    [k ln 2] (Cody-Waite split of [ln 2]), evaluates the degree-24 Taylor
    polynomial on the reduced argument and scales by [2^k]. *)
Definition exp64 (x : float) : float :=
  if PrimFloat.ltb x (-0x1.74910d52d3051p+9)%float then 0%float
  else if PrimFloat.ltb 0x1.62e42fefa39efp+9%float x then infinity
  else
    let k := trunc_Z (x * 0x1.71547652b82fep0)%float in
    let kf := of_Z64 k in
    let r := ((x - kf * 0x1.62e42feep-1) - kf * 0x1.a39ef35793c76p-33)%float in
    PrimFloat.ldshiftexp (exp_taylor 24 r 1) (Uint63.of_Z (k + 2101)).

(** [ufunc = lambdify((t, x, nu), u)] for
    [u = -2 * nu * (phiprime / phi) + 4], evaluated as the printed
    expressions of cells 3 and 4 read:
    [phi = exp(-(-4*t + x - 2*pi)**2/(4*nu*(t + 1)))
           + exp(-(-4*t + x)**2/(4*nu*(t + 1)))],
    [phiprime = -(-8*t + 2*x)*exp(-(-4*t + x)**2/(4*nu*(t + 1)))/(4*nu*(t + 1))
                - (-8*t + 2*x - 4*pi)*exp(-(-4*t + x - 2*pi)**2/(4*nu*(t + 1)))/(4*nu*(t + 1))],
    [u = -2*nu*(phiprime)/(phi) + 4]. *)
Definition ufunc64 (t x nu : float) : float :=
  (let c := 4 * nu * (t + 1) in
   let e1 := exp64 (- pow64 (-4 * t + x) 2 / c) in
   let e2 := exp64 (- pow64 (-4 * t + x - 2 * np_pi64) 2 / c) in
   let phiprime := (- (-8 * t + 2 * x)) * e1 / c - (-8 * t + 2 * x - 4 * np_pi64) * e2 / c in
   let phi := e2 + e1 in
   -2 * nu * phiprime / phi + 4)%float.

Abbreviation setup64 :=
  (setup float PrimFloat.add PrimFloat.sub PrimFloat.mul PrimFloat.div of_Z64 np_pi64
     ufunc64 PrimFloat.eqb (alloc_upto (2 ^ 32))).
Abbreviation integrate64 :=
  (integrate float PrimFloat.add PrimFloat.sub PrimFloat.mul PrimFloat.div pow64 of_Z64).

(** Cells 5 and 6 with [nx = 101], [nt = 100], [nu = 0.07]: the field [u]
    after the loop, and
    [u_analytical = np.asarray([ufunc(nt * dt, xi, nu) for xi in x])]. *)
Definition notebook_run : result (list float * list float) :=
  match setup64 101 100 0.07%float [] with
  | Err e => Err e
  | Ok (p, x, s0) =>
      match integrate64 p s0 with
      | Err e => Err e
      | Ok (_, s) =>
          Ok (u float s,
              map (fun xi => ufunc64 (of_Z64 (nt float p) * dt float p)%float xi (nu float p)) x)
      end
  end.

(** [np.abs(u - u_analytical)]. *)
Definition deviation (uc ua : list float) : list float :=
  zip_with (fun a b => PrimFloat.abs (a - b)%float) uc ua.

Definition notebook_result : result (list float * list float) :=
  Eval vm_compute in notebook_run.

Lemma notebook_run_result : notebook_run = notebook_result.
Proof. vm_compute. reflexivity. Qed.

Lemma lookup_forallb_ix {A} (P : nat -> A -> bool) (l : list A) n :
  forallb (fun kx => P kx.1 kx.2) (zip (seq n (length l)) l) = true ->
  forall k x, l !! k = Some x -> P (n + k) x = true.
Proof.
  revert n. induction l as [|y l IH]; intros n H k x Hk; [discriminate|].
  simpl in H. apply andb_prop in H as [Hy Hl].
  destruct k as [|k]; simpl in Hk.
  - injection Hk as <-. rewrite Nat.add_0_r. exact Hy.
  - rewrite <- Nat.add_succ_comm. exact (IH (S n) Hl k x Hk).
Qed.



End Binary64.
